(** * InodeStore: sync progress and paginated query results

    A shallow embedding of [src/store/InodeStore.ts].  The store is a mobx
    class with four observable fields, one computed getter, three [async]
    methods that each suspend once on the Index Database, a fire-and-forget
    [init], and a callback handed to [db.startSync].

    Modelling choices, all taken from the source:
    - a JavaScript [number] is an integer or one of [Infinity],
      [-Infinity], [NaN]; products and quotients are rounded to the nearest
      binary64 value as [*] and [/] do; the sign of zero is not tracked;
    - an [async] method runs synchronously up to its only [await] and is
      then a pending promise: the database request it issued plus the code
      that runs when the request settles;
    - the code after an [await] is written in a small state-and-exception
      monad over the world the store lives in;
    - [@action] runs its body as one mobx transaction: observers see the
      store only when the outermost transaction ends, and only if some
      observable was given a new value. *)

From Stdlib Require Import ZArith QArith Qround List String Bool Lia.
Import ListNotations.
Local Open Scope Z_scope.

(** ** JavaScript numbers *)

(** [Int z] is the number whose value is the integer [z]; the numbers a
    program can hold are those [z] that are binary64 values, which
    includes every integer up to [2^53] in magnitude. *)
Inductive number : Type :=
| Int (z : Z)
| PosInf
| NegInf
| NaN.

Definition Infinity : number := PosInf.

(** The value of [a / b]: a binary64 value that need not be an integer. *)
Inductive quotient : Type :=
| Ratio (q : Q)
| QPosInf
| QNegInf
| QNaN.

(** Rounding to binary64: 53 significant bits, nearest value, ties to the
    even significand, exponents from -1074 up to overflow at [2^1024]. *)
Module Binary64.

(** The integer nearest to [num / den], ties to the even one; for
    [0 <= num] and [0 < den]. *)
Definition nearest_even (num den : Z) : Z :=
  let f := num / den in
  let r := num mod den in
  match 2 * r ?= den with
  | Lt => f
  | Gt => f + 1
  | Eq => if Z.even f then f else f + 1
  end.

(** [a / (b * 2^e)] as a fraction of integers. *)
Definition scale (a b e : Z) : Z * Z :=
  if 0 <? e then (a, b * 2 ^ e) else (a * 2 ^ (- e), b).

(** [floor (log2 (a / b))], for [0 < a] and [0 < b]. *)
Definition binade (a b : Z) : Z :=
  let k := Z.log2 a - Z.log2 b in
  let (n, d) := scale a b k in
  if n <? d then k - 1 else k.

(** The exponent of the last significant bit of the values of a binade;
    below [2^-1022] the values are subnormal and keep exponent -1074. *)
Definition ulp_exponent (k : Z) : Z := Z.max (k - 52) (-1074).

(** The binary64 value nearest to [a / b], for [0 < a] and [0 < b], as a
    significand [m] and an exponent [e]: the value is [m * 2^e]. *)
Definition round (a b : Z) : Z * Z :=
  let e := ulp_exponent (binade a b) in
  let (n, d) := scale a b e in
  (nearest_even n d, e).

(** [m * 2^e] is beyond the largest binary64 value. *)
Definition overflows (m e : Z) : bool :=
  (0 <? e) && (2 ^ 1024 <=? m * 2 ^ e).

(** [m * 2^e] as a rational. *)
Definition value (m e : Z) : Q :=
  if 0 <? e then inject_Z (m * 2 ^ e) else Qmake m (Z.to_pos (2 ^ (- e))).

End Binary64.

Module Number.

(** [Number.MAX_SAFE_INTEGER]: up to it every integer is a binary64 value. *)
Definition MAX_SAFE_INTEGER : Z := 2 ^ 53 - 1.

Definition isFinite (a : number) : bool :=
  match a with Int _ => true | _ => false end.

(** [Object.is(a, b)] on numbers, the test mobx uses to decide whether a
    write gave an observable a new value: unlike [===], [NaN] is [NaN]. *)
Definition same_value (a b : number) : bool :=
  match a, b with
  | Int x, Int y => x =? y
  | PosInf, PosInf => true
  | NegInf, NegInf => true
  | NaN, NaN => true
  | _, _ => false
  end.

(** [a === b] on numbers: [NaN] equals nothing, not even itself. *)
Definition strict_eq (a b : number) : bool :=
  match a, b with
  | Int x, Int y => x =? y
  | PosInf, PosInf => true
  | NegInf, NegInf => true
  | _, _ => false
  end.

(** [a <= b] on numbers: false as soon as one side is [NaN]. *)
Definition le (a b : number) : bool :=
  match a, b with
  | NaN, _ | _, NaN => false
  | NegInf, _ => true
  | _, PosInf => true
  | Int x, Int y => x <=? y
  | _, _ => false
  end.

(** An infinity of the sign of [z], [NaN] for zero. *)
Definition signed_inf (z : Z) : number :=
  match z with
  | Z0 => NaN
  | Zpos _ => PosInf
  | Zneg _ => NegInf
  end.

Definition opp (a : number) : number :=
  match a with
  | Int z => Int (- z)
  | PosInf => NegInf
  | NegInf => PosInf
  | NaN => NaN
  end.

(** The binary64 value nearest to the integer [z].  Integers up to
    [MAX_SAFE_INTEGER] in magnitude are binary64 values; beyond, the
    nearest value is still an integer, or the integer overflows. *)
Definition round_integer (z : Z) : number :=
  if Z.abs z <=? MAX_SAFE_INTEGER then Int z
  else
    let (m, e) := Binary64.round (Z.abs z) 1 in
    if Binary64.overflows m e then signed_inf z
    else Int (Z.sgn z * Qfloor (Binary64.value m e)).

(** [a * b]: the exact product, rounded. *)
Definition mul (a b : number) : number :=
  match a, b with
  | NaN, _ | _, NaN => NaN
  | Int x, Int y => round_integer (x * y)
  | Int x, PosInf | PosInf, Int x => signed_inf x
  | Int x, NegInf | NegInf, Int x => opp (signed_inf x)
  | PosInf, PosInf | NegInf, NegInf => PosInf
  | PosInf, NegInf | NegInf, PosInf => NegInf
  end.

(** [a / b]: the exact quotient, rounded. *)
Definition div (a b : number) : quotient :=
  match a, b with
  | NaN, _ | _, NaN => QNaN
  | Int x, Int y =>
      if y =? 0 then
        match x with Z0 => QNaN | Zpos _ => QPosInf | Zneg _ => QNegInf end
      else if x =? 0 then Ratio 0
      else
        let (m, e) := Binary64.round (Z.abs x) (Z.abs y) in
        let negative := xorb (x <? 0) (y <? 0) in
        if Binary64.overflows m e then (if negative then QNegInf else QPosInf)
        else if negative then Ratio (- Binary64.value m e)
        else Ratio (Binary64.value m e)
  | Int _, (PosInf | NegInf) => Ratio 0
  | PosInf, Int y => if y <? 0 then QNegInf else QPosInf
  | NegInf, Int y => if y <? 0 then QPosInf else QNegInf
  | (PosInf | NegInf), (PosInf | NegInf) => QNaN
  end.

End Number.

Module Math.

(** [Math.ceil]. *)
Definition ceil (x : quotient) : number :=
  match x with
  | Ratio q => Int (Qceiling q)
  | QPosInf => PosInf
  | QNegInf => NegInf
  | QNaN => NaN
  end.

End Math.

(** ** Values exchanged with the collaborators *)

(** A thrown value or a rejection reason, identified by its message. *)
Definition Err : Type := string.

Definition Error (message : string) : Err := message.

(** Modelled from the spec: [Inode] is declared in [../lib/db], which is not
    part of the sources at hand.  The spec calls it an opaque, immutable
    value "with no required fields beyond identity". *)
Record Inode : Type := { inode_identity : nat }.

(** Modelled from the spec: [RootStore] is declared in [./rootStore]; the
    store only keeps the reference ("an owning context reference"). *)
Record RootStore : Type := { root_identity : nat }.

(** Modelled from the spec: [InodeDatabase] is declared in [../lib/db].  The
    handle is "scoped by an identifier (e.g., a contract address)"; what
    the database answers is left to the environment, see [settled]. *)
Record InodeDatabase : Type := { contractAddress : string }.

(** Modelled from the spec: the value [getSyncState] resolves to and the
    snapshot a sync event carries; the source reads its fields [numSynced]
    and [total]. *)
Module SyncState.
Record t : Type := mk { numSynced : number; total : number }.
End SyncState.

(** Modelled from the spec: [Pageable<Inode>], what [search] and [latest]
    resolve to; the source reads its fields [data] and [total]. *)
Module Pageable.
Record t : Type := mk { data : list Inode; total : number }.
End Pageable.

Module SearchParams.
Record t : Type := mk { query : string; page : number }.
End SearchParams.

Module GetLatestParams.
Record t : Type := mk { page : number }.
End GetLatestParams.

Module UpdateSyncAction.
Record t : Type := mk { inodesSynced : number; totalInodes : number }.
End UpdateSyncAction.

Module UpdateSearchResultsAction.
Record t : Type := mk { data : list Inode; total : number }.
End UpdateSearchResultsAction.

(** ** The store object *)

Record InodeStore : Type := {
  searchResults : list Inode;
  pages : number;
  resultsPerPage : number;
  inodesSynced : number;
  totalInodesToSync : number;
  rootStore : RootStore;
  db : InodeDatabase
}.

(** The constructor together with the field initializers. *)
Definition new_InodeStore
    (rootStore : RootStore) (contractAddress : string) (resultsPerPage : number)
  : InodeStore :=
  {| searchResults := [];
     pages := Int 1;
     resultsPerPage := resultsPerPage;
     inodesSynced := Int 0;
     totalInodesToSync := Infinity;
     rootStore := rootStore;
     db := {| contractAddress := contractAddress |} |}.

(** [get isDbSyncing()]. *)
Definition isDbSyncing (this : InodeStore) : bool :=
  Number.strict_eq (inodesSynced this) (totalInodesToSync this).

(** Field assignments [this.f = v]. *)
Definition set_searchResults (v : list Inode) (s : InodeStore) : InodeStore :=
  {| searchResults := v;
     pages := pages s;
     resultsPerPage := resultsPerPage s;
     inodesSynced := inodesSynced s;
     totalInodesToSync := totalInodesToSync s;
     rootStore := rootStore s;
     db := db s |}.

Definition set_pages (v : number) (s : InodeStore) : InodeStore :=
  {| searchResults := searchResults s;
     pages := v;
     resultsPerPage := resultsPerPage s;
     inodesSynced := inodesSynced s;
     totalInodesToSync := totalInodesToSync s;
     rootStore := rootStore s;
     db := db s |}.

Definition set_inodesSynced (v : number) (s : InodeStore) : InodeStore :=
  {| searchResults := searchResults s;
     pages := pages s;
     resultsPerPage := resultsPerPage s;
     inodesSynced := v;
     totalInodesToSync := totalInodesToSync s;
     rootStore := rootStore s;
     db := db s |}.

Definition set_totalInodesToSync (v : number) (s : InodeStore) : InodeStore :=
  {| searchResults := searchResults s;
     pages := pages s;
     resultsPerPage := resultsPerPage s;
     inodesSynced := inodesSynced s;
     totalInodesToSync := v;
     rootStore := rootStore s;
     db := db s |}.

(** ** The world the store runs in *)

(** One line written by [console.warn(label, err)]. *)
Record Warning : Type := { label : string; reason : Err }.

Record World : Type := {
  this : InodeStore;
  (** depth of running mobx transactions *)
  batch : nat;
  (** the store as observers saw it, newest first: one entry each time a
      write happens outside a transaction or an outermost transaction ends *)
  instants : list InodeStore;
  console : list Warning;
  (** how many times the store handed its callback to [db.startSync] *)
  subscriptions : nat;
  (** an observable got a new value inside the running transaction and
      the observers have not run since *)
  pendingReactions : bool
}.

Definition boot (s : InodeStore) : World :=
  {| this := s; batch := 0; instants := []; console := []; subscriptions := 0;
     pendingReactions := false |}.

(** How a piece of synchronous code ends. *)
Inductive completion (A : Type) : Type :=
| Normal (a : A)
| Thrown (e : Err).
Arguments Normal {A} a.
Arguments Thrown {A} e.

Definition M (A : Type) : Type := World -> World * completion A.

Definition ret {A : Type} (a : A) : M A := fun w => (w, Normal a).

Definition throw {A : Type} (e : Err) : M A := fun w => (w, Thrown e).

Definition bind {A B : Type} (c : M A) (k : A -> M B) : M B :=
  fun w =>
    match c w with
    | (w', Normal a) => k a w'
    | (w', Thrown e) => (w', Thrown e)
    end.

Declare Scope js_scope.
Delimit Scope js_scope with js.
Notation "x <- c ;; k" := (bind c (fun x => k))
  (at level 61, c at next level, right associativity) : js_scope.
Notation "c ;; k" := (bind c (fun _ => k))
  (at level 61, right associativity) : js_scope.
Local Open Scope js_scope.

(** Reading a field of [this]. *)
Definition read {A : Type} (field : InodeStore -> A) : M A :=
  fun w => (w, Normal (field (this w))).

(** The observers run and see the store as it is now. *)
Definition runReactions (w : World) : World :=
  {| this := this w; batch := batch w; instants := this w :: instants w;
     console := console w; subscriptions := subscriptions w;
     pendingReactions := false |}.

(** An observable was written; [changed] tells whether the value is a new
    one.  Outside a transaction the observers of a new value run at once;
    inside one they are left pending. *)
Definition reportChanged (changed : bool) (w : World) : World :=
  match batch w with
  | O => if changed then runReactions w else w
  | S _ =>
      {| this := this w; batch := batch w; instants := instants w;
         console := console w; subscriptions := subscriptions w;
         pendingReactions := pendingReactions w || changed |}
  end.

(** Writing an observable field of [this]. *)
Definition assign (changed : bool) (write : InodeStore -> InodeStore) : M unit :=
  fun w =>
    (reportChanged changed
       {| this := write (this w); batch := batch w; instants := instants w;
          console := console w; subscriptions := subscriptions w;
          pendingReactions := pendingReactions w |},
     Normal tt).

(** [this.f = v] for an array: mobx wraps [v] in a fresh observable
    array, which is always a new value. *)
Definition assign_array (write : list Inode -> InodeStore -> InodeStore)
    (v : list Inode) : M unit :=
  assign true (write v).

(** [this.f = v] for a number: a new value unless [Object.is] says it is
    the one the field holds. *)
Definition assign_number (field : InodeStore -> number)
    (write : number -> InodeStore -> InodeStore) (v : number) : M unit :=
  fun w => assign (negb (Number.same_value (field (this w)) v)) (write v) w.

Definition startBatch (w : World) : World :=
  {| this := this w; batch := S (batch w); instants := instants w;
     console := console w; subscriptions := subscriptions w;
     pendingReactions := pendingReactions w |}.

(** Closing the outermost transaction runs the pending observers. *)
Definition endBatch (w : World) : World :=
  match Nat.pred (batch w) with
  | O =>
      if pendingReactions w then
        {| this := this w; batch := 0; instants := this w :: instants w;
           console := console w; subscriptions := subscriptions w;
           pendingReactions := false |}
      else
        {| this := this w; batch := 0; instants := instants w;
           console := console w; subscriptions := subscriptions w;
           pendingReactions := false |}
  | S b =>
      {| this := this w; batch := S b; instants := instants w;
         console := console w; subscriptions := subscriptions w;
         pendingReactions := pendingReactions w |}
  end.

(** [@action]: the body runs inside a transaction, closed however it ends. *)
Definition action {A : Type} (body : M A) : M A :=
  fun w => let (w', r) := body (startBatch w) in (endBatch w', r).

(** [console.warn(label, err)]. *)
Definition console_warn (label : string) (err : Err) : M unit :=
  fun w =>
    ({| this := this w; batch := batch w; instants := instants w;
        console := {| label := label; reason := err |} :: console w;
        subscriptions := subscriptions w;
        pendingReactions := pendingReactions w |},
     Normal tt).

(** ** Calls into the Index Database *)

(** The requests the store awaits.  [startSync] is not among them: it
    returns nothing and is not awaited. *)
Inductive DbCall : Type :=
| getSyncState
| db_search (query : string) (limit offset : number)
| db_latest (limit offset : number)
| clearData.

(** What each request resolves to. *)
Definition reply (c : DbCall) : Type :=
  match c with
  | getSyncState => SyncState.t
  | db_search _ _ _ => Pageable.t
  | db_latest _ _ => Pageable.t
  | clearData => unit
  end.

(** How the database settles a promise it returned. *)
Inductive settled (A : Type) : Type :=
| Resolved (a : A)
| Rejected (e : Err).
Arguments Resolved {A} a.
Arguments Rejected {A} e.

(** [await p]: the value [p] resolved to, or its rejection reason thrown. *)
Definition await {A : Type} (p : settled A) : M A :=
  match p with
  | Resolved a => ret a
  | Rejected e => throw e
  end.

(** An [async] function suspended at its [await]: the request it issued
    and the rest of its body. *)
Record Promise : Type := Pending {
  request : DbCall;
  resume : settled (reply request) -> M unit
}.

(** [this.db.startSync(callback)]. *)
Definition db_startSync : M unit :=
  fun w =>
    ({| this := this w; batch := batch w; instants := instants w;
        console := console w; subscriptions := S (subscriptions w);
        pendingReactions := pendingReactions w |},
     Normal tt).

(** ** The methods of the store *)

(** [@action private updateSyncProgress(params)]. *)
Definition updateSyncProgress (params : UpdateSyncAction.t) : M unit :=
  action (
    assign_number inodesSynced set_inodesSynced
      (UpdateSyncAction.inodesSynced params) ;;
    assign_number totalInodesToSync set_totalInodesToSync
      (UpdateSyncAction.totalInodes params)).

(** [@action private updateSearchResults(params)]. *)
Definition updateSearchResults (params : UpdateSearchResultsAction.t) : M unit :=
  action (
    assign_array set_searchResults (UpdateSearchResultsAction.data params) ;;
    perPage <- read resultsPerPage ;;
    assign_number pages set_pages
      (Math.ceil (Number.div (UpdateSearchResultsAction.total params) perPage))).

(** [@action private clearResults() {}]. *)
Definition clearResults : M unit := action (ret tt).

(** The arrow function passed to [this.db.startSync] in [init].  An error
    or a snapshot is present when the argument is truthy. *)
Definition syncCallback (err : option Err) (syncState : option SyncState.t) : M unit :=
  match err with
  | Some e => console_warn "Error while syncing:" e
  | None =>
      match syncState with
      | None => throw (Error "Result must exist")
      | Some syncState =>
          updateSyncProgress
            {| UpdateSyncAction.inodesSynced := SyncState.numSynced syncState;
               UpdateSyncAction.totalInodes := SyncState.total syncState |}
      end
  end.

(** [const initiator = async () => { ... }] inside [init]. *)
Definition initiator (w : World) : Promise :=
  Pending getSyncState (fun p =>
    syncState <- await p ;;
    updateSyncProgress
      {| UpdateSyncAction.inodesSynced := SyncState.numSynced syncState;
         UpdateSyncAction.totalInodes := SyncState.total syncState |} ;;
    db_startSync).

(** [public async search(params)]. *)
Definition search (params : SearchParams.t) (w : World) : Promise :=
  let limit := resultsPerPage (this w) in
  let offset := Number.mul (resultsPerPage (this w)) (SearchParams.page params) in
  Pending (db_search (SearchParams.query params) limit offset) (fun p =>
    searchResults <- await p ;;
    updateSearchResults
      {| UpdateSearchResultsAction.total := Pageable.total searchResults;
         UpdateSearchResultsAction.data := Pageable.data searchResults |}).

(** [public async getLatest(params)]. *)
Definition getLatest (params : GetLatestParams.t) (w : World) : Promise :=
  let limit := resultsPerPage (this w) in
  let offset := Number.mul (resultsPerPage (this w)) (GetLatestParams.page params) in
  Pending (db_latest limit offset) (fun p =>
    searchResults <- await p ;;
    updateSearchResults
      {| UpdateSearchResultsAction.total := Pageable.total searchResults;
         UpdateSearchResultsAction.data := Pageable.data searchResults |}).

(** [public async clear()]. *)
Definition clear (w : World) : Promise :=
  Pending clearData (fun p =>
    await p ;;
    assign_array set_searchResults []).

(** What a caller gets back from a method. *)
Inductive Returned : Type :=
| Undefined
| Thenable (p : Promise).

(** A started [async] function.  Its promise either went back to the
    caller of the method, or nobody holds it. *)
Record Task : Type := {
  promise : Promise;
  returned : Returned
}.

(** [public init(): void]: [initiator()] is started and its promise is
    dropped; the method itself returns nothing. *)
Definition init (w : World) : Task :=
  {| promise := initiator w; returned := Undefined |}.

(** The four entry points the presentation layer invokes. *)
Inductive Call : Type :=
| CallInit
| CallSearch (params : SearchParams.t)
| CallGetLatest (params : GetLatestParams.t)
| CallClear.

Definition invoke (c : Call) (w : World) : Task :=
  match c with
  | CallInit => init w
  | CallSearch params =>
      let p := search params w in {| promise := p; returned := Thenable p |}
  | CallGetLatest params =>
      let p := getLatest params w in {| promise := p; returned := Thenable p |}
  | CallClear =>
      let p := clear w in {| promise := p; returned := Thenable p |}
  end.

(** Who learns how a task ended. *)
Inductive Outcome : Type :=
| CallerSees (result : settled unit)
| Unobserved
| UnhandledRejection (e : Err).

Definition outcome (r : Returned) (c : completion unit) : Outcome :=
  match r, c with
  | Thenable _, Normal _ => CallerSees (Resolved tt)
  | Thenable _, Thrown e => CallerSees (Rejected e)
  | Undefined, Normal _ => Unobserved
  | Undefined, Thrown e => UnhandledRejection e
  end.

(** The database settles the request of task [t]; the rest of the [async]
    body runs on the world as it is by then. *)
Definition finish (t : Task) (p : settled (reply (request (promise t)))) (w : World)
  : World * Outcome :=
  let (w', c) := resume (promise t) p w in (w', outcome (returned t) c).

(** ** The store among its collaborators *)

(** An exception that escapes the sync callback lands in the database's
    own sync loop, which called it. *)
Inductive Heard : Type :=
| TaskEnded (o : Outcome)
| CallbackThrew (e : Err).

Record System : Type := {
  world : World;
  (** started [async] functions whose request has not settled yet *)
  inflight : list Task;
  (** what the outside has learnt so far, newest first *)
  heard : list Heard
}.

Definition start (rootStore : RootStore) (contractAddress : string)
    (resultsPerPage : number) : System :=
  {| world := boot (new_InodeStore rootStore contractAddress resultsPerPage);
     inflight := [];
     heard := [] |}.

(** The presentation layer calls a method. *)
Definition enter (c : Call) (sys : System) : System :=
  {| world := world sys;
     inflight := invoke c (world sys) :: inflight sys;
     heard := heard sys |}.

(** The database settles the request of [t], one of the tasks in flight;
    [rest] are the others. *)
Definition settle (t : Task) (p : settled (reply (request (promise t))))
    (rest : list Task) (sys : System) : System :=
  let (w', o) := finish t p (world sys) in
  {| world := w'; inflight := rest; heard := TaskEnded o :: heard sys |}.

(** The database invokes the callback it was given. *)
Definition deliver (err : option Err) (syncState : option SyncState.t)
    (sys : System) : System :=
  let (w', c) := syncCallback err syncState (world sys) in
  {| world := w';
     inflight := inflight sys;
     heard := match c with
              | Normal _ => heard sys
              | Thrown e => CallbackThrew e :: heard sys
              end |}.

Section Runs.

(** What is assumed of every snapshot the database hands out. *)
Variable contract : SyncState.t -> Prop.

Definition honest (c : DbCall) : settled (reply c) -> Prop :=
  match c with
  | getSyncState => fun p =>
      match p with
      | Resolved syncState => contract syncState
      | Rejected _ => True
      end
  | _ => fun _ => True
  end.

(** One turn of the event loop. *)
Inductive step : System -> System -> Prop :=
| step_enter (c : Call) (sys : System) :
    step sys (enter c sys)
| step_settle (sys : System) (before after : list Task) (t : Task)
    (p : settled (reply (request (promise t)))) :
    inflight sys = before ++ t :: after ->
    honest (request (promise t)) p ->
    step sys (settle t p (before ++ after) sys)
| step_deliver (sys : System) (err : option Err) (syncState : option SyncState.t) :
    (0 < subscriptions (world sys))%nat ->
    (forall s, err = None -> syncState = Some s -> contract s) ->
    step sys (deliver err syncState sys).

Inductive reachable (origin : System) : System -> Prop :=
| reach_origin : reachable origin origin
| reach_step (sys sys' : System) :
    reachable origin sys -> step sys sys' -> reachable origin sys'.

End Runs.

(** A database that promises nothing about its snapshots. *)
Definition any_snapshot : SyncState.t -> Prop := fun _ => True.

(** Spec, data model: "synced <= total once total is finite". *)
Definition ordered (synced total : number) : Prop :=
  Number.isFinite total = true -> Number.le synced total = true.

Definition ordered_snapshot (s : SyncState.t) : Prop :=
  ordered (SyncState.numSynced s) (SyncState.total s).

Definition ordered_store (s : InodeStore) : Prop :=
  ordered (inodesSynced s) (totalInodesToSync s).

(** A task is one of the store's own: some call started it. *)
Definition started_by_store (t : Task) : Prop :=
  exists (c : Call) (w0 : World), t = invoke c w0.

(** What holds between two turns of the event loop when the database
    keeps [ordered_snapshot]. *)
Definition sound (sys : System) : Prop :=
  batch (world sys) = 0%nat
  /\ pendingReactions (world sys) = false
  /\ ordered_store (this (world sys))
  /\ Forall ordered_store (instants (world sys))
  /\ Forall started_by_store (inflight sys).

(** ** Sample runs *)

Definition sample_world : World :=
  boot (new_InodeStore {| root_identity := 0 |} "0xC0FFEE" (Int 10)).

Definition seven_inodes : list Inode :=
  map (fun n => {| inode_identity := n |}) (seq 0 7).

(** Scenario B of the spec: page size 10, [getLatest({page: 2})], the
    database answers seven items out of 27. *)
Definition after_latest : World :=
  fst (finish (invoke (CallGetLatest {| GetLatestParams.page := Int 2 |}) sample_world)
         (Resolved {| Pageable.data := seven_inodes; Pageable.total := Int 27 |})
         sample_world).

(** ... followed by [clear()], whose purge resolves. *)
Definition after_clear : World :=
  fst (finish (invoke CallClear after_latest) (Resolved tt) after_latest).

(** A reason the database may reject with. *)
Definition unavailable : Err := "unavailable"%string.

(** [init()] on a fresh store, then [getSyncState] resolves with the given
    snapshot. *)
Definition initialized (syncState : SyncState.t) : System :=
  let sys := start {| root_identity := 0 |} "0xC0FFEE" (Int 10) in
  settle (invoke CallInit (world sys)) (Resolved syncState) [] (enter CallInit sys).

(** ** Bookkeeping along runs *)

(** The tasks that ended with nobody watching and without an error: only
    [initiator] can end that way, when [getSyncState] resolved. *)
Fixpoint resolved_inits (h : list Heard) : nat :=
  match h with
  | [] => 0%nat
  | TaskEnded Unobserved :: rest => S (resolved_inits rest)
  | _ :: rest => resolved_inits rest
  end.

(** The sync progress the field initializers give. *)
Definition initial_progress (s : InodeStore) : Prop :=
  inodesSynced s = Int 0 /\ totalInodesToSync s = Infinity.

(** The sync progress is, field for field, a snapshot the database may
    hand out. *)
Definition reported (contract : SyncState.t -> Prop) (s : InodeStore) : Prop :=
  exists syncState : SyncState.t,
    contract syncState
    /\ inodesSynced s = SyncState.numSynced syncState
    /\ totalInodesToSync s = SyncState.total syncState.

(** The fields only the constructor writes. *)
Definition configured (r : RootStore) (a : string) (P : number) (s : InodeStore)
  : Prop :=
  resultsPerPage s = P /\ rootStore s = r /\ db s = {| contractAddress := a |}.

(** What holds between two turns of the event loop, whatever the database
    promises about its snapshots. *)
Definition coherent (contract : SyncState.t -> Prop)
    (r : RootStore) (a : string) (P : number) (sys : System) : Prop :=
  batch (world sys) = 0%nat
  /\ pendingReactions (world sys) = false
  /\ configured r a P (this (world sys))
  /\ Forall (configured r a P) (instants (world sys))
  /\ Forall started_by_store (inflight sys)
  /\ subscriptions (world sys) = resolved_inits (heard sys)
  /\ (initial_progress (this (world sys)) \/ reported contract (this (world sys)))
  /\ (subscriptions (world sys) = 0%nat -> initial_progress (this (world sys))).

(** [init()] on a fresh store whose [getSyncState] then rejects. *)
Definition init_failed : System :=
  let sys := start {| root_identity := 0 |} "0xC0FFEE" (Int 10) in
  settle (invoke CallInit (world sys)) (Rejected unavailable) [] (enter CallInit sys).

(** A store whose page size, squared, is beyond [MAX_SAFE_INTEGER]. *)
Definition wide_pages_world : World :=
  boot (new_InodeStore {| root_identity := 0 |} "0xC0FFEE" (Int 94906267)).

(** A store with three results per page. *)
Definition three_per_page_world : World :=
  boot (new_InodeStore {| root_identity := 0 |} "0xC0FFEE" (Int 3)).

(** ** Arithmetic of page counts *)

Section NearestEven.

Variables num den : Z.
Hypothesis den_pos : 0 < den.

Lemma nearest_even_le (N : Z) :
  num <= N * den -> Binary64.nearest_even num den <= N.
Proof.
  intros Hle. unfold Binary64.nearest_even.
  pose proof (Z.div_mod num den ltac:(lia)) as Hdm.
  pose proof (Z.mod_pos_bound num den den_pos) as Hr.
  destruct (Z.compare_spec (2 * (num mod den)) den) as [Heq | Hlt | Hgt].
  - assert (num / den < N) by nia. destruct (Z.even (num / den)); lia.
  - nia.
  - nia.
Qed.

Lemma nearest_even_ge (N : Z) :
  N * den <= num -> N <= Binary64.nearest_even num den.
Proof.
  intros Hge. unfold Binary64.nearest_even.
  pose proof (Z.div_mod num den ltac:(lia)) as Hdm.
  pose proof (Z.mod_pos_bound num den den_pos) as Hr.
  assert (N <= num / den) by nia.
  destruct (Z.compare_spec (2 * (num mod den)) den);
    [destruct (Z.even (num / den))| |]; lia.
Qed.

(** Past the midpoint between [M] and [M + 1], the nearest integer is at
    least [M + 1]. *)
Lemma nearest_even_past_half (M : Z) :
  (2 * M + 1) * den < 2 * num -> M + 1 <= Binary64.nearest_even num den.
Proof.
  intros Hhalf. unfold Binary64.nearest_even.
  pose proof (Z.div_mod num den ltac:(lia)) as Hdm.
  pose proof (Z.mod_pos_bound num den den_pos) as Hr.
  assert (M <= num / den) by nia.
  destruct (Z.compare_spec (2 * (num mod den)) den) as [Heq | Hlt | Hgt].
  - assert (M < num / den) by nia. destruct (Z.even (num / den)); lia.
  - nia.
  - lia.
Qed.

End NearestEven.

(** The binade of a quotient of two safe integers. *)
Lemma binade_range (a b : Z) :
  0 < a <= Number.MAX_SAFE_INTEGER ->
  0 < b <= Number.MAX_SAFE_INTEGER ->
  -53 <= Binary64.binade a b <= 52.
Proof.
  unfold Number.MAX_SAFE_INTEGER. intros Ha Hb.
  assert (0 <= Z.log2 a < 53).
  { split; [apply Z.log2_nonneg | apply Z.log2_lt_pow2; lia]. }
  assert (0 <= Z.log2 b < 53).
  { split; [apply Z.log2_nonneg | apply Z.log2_lt_pow2; lia]. }
  unfold Binary64.binade.
  destruct (Binary64.scale a b (Z.log2 a - Z.log2 b)) as [n d].
  destruct (n <? d); lia.
Qed.

(** [2^k <= a / b] for the binade [k], when [k] is not negative. *)
Lemma binade_lower (a b : Z) :
  0 < a -> 0 < b ->
  0 <= Binary64.binade a b ->
  b * 2 ^ Binary64.binade a b <= a.
Proof.
  intros Ha Hb. unfold Binary64.binade, Binary64.scale.
  destruct (Z.log2_spec a Ha) as [Hla _].
  destruct (Z.log2_spec b Hb) as [_ Hlb].
  pose proof (Z.log2_nonneg a) as Hna.
  pose proof (Z.log2_nonneg b) as Hnb.
  set (la := Z.log2 a) in *. set (lb := Z.log2 b) in *.
  destruct (Z.ltb_spec 0 (la - lb)) as [Hpos | Hneg].
  - destruct (Z.ltb_spec a (b * 2 ^ (la - lb))) as [Hlt | Hge]; intros Hk.
    + assert (Hsplit : 2 ^ la = 2 ^ Z.succ lb * 2 ^ (la - lb - 1)).
      { rewrite <- Z.pow_add_r by lia. f_equal. lia. }
      assert (0 < 2 ^ (la - lb - 1)) by (apply Z.pow_pos_nonneg; lia).
      nia.
    + exact Hge.
  - destruct (Z.ltb_spec (a * 2 ^ (- (la - lb))) b) as [Hlt | Hge]; intros Hk.
    + lia.
    + assert (la - lb = 0) by lia.
      replace (la - lb) with 0 in * by lia. simpl in Hge. simpl. lia.
Qed.

(** The ceiling of the value [m * 2^e] for an exponent that is not
    positive. *)
Lemma Qceiling_value (m e : Z) :
  e <= 0 -> Qceiling (Binary64.value m e) = - ((- m) / 2 ^ (- e)).
Proof.
  intros He. unfold Binary64.value.
  destruct (Z.ltb_spec 0 e); [lia|].
  assert (0 < 2 ^ (- e)) by (apply Z.pow_pos_nonneg; lia).
  unfold Qceiling, Qfloor, Qopp. simpl.
  rewrite Z2Pos.id by assumption. reflexivity.
Qed.

(** On safe integers, rounding the quotient to binary64 before
    [Math.ceil] does not change the ceiling. *)
Lemma ceil_div_safe (t p : Z) :
  0 <= t <= Number.MAX_SAFE_INTEGER ->
  0 < p <= Number.MAX_SAFE_INTEGER ->
  Math.ceil (Number.div (Int t) (Int p)) = Int (- ((- t) / p)).
Proof.
  intros Ht Hp. unfold Number.div.
  destruct (Z.eqb_spec p 0) as [| _]; [lia|].
  destruct (Z.eqb_spec t 0) as [-> | Hnz]; [reflexivity|].
  assert (Htpos : 0 < t <= Number.MAX_SAFE_INTEGER) by lia.
  rewrite (Z.abs_eq t), (Z.abs_eq p) by lia.
  destruct (Z.ltb_spec t 0); [lia|]. destruct (Z.ltb_spec p 0); [lia|].
  pose proof (binade_range t p Htpos Hp) as Hk.
  pose proof (binade_lower t p ltac:(lia) ltac:(lia)) as Hlow.
  unfold Binary64.round, Binary64.ulp_exponent.
  set (k := Binary64.binade t p) in *.
  rewrite Z.max_l by lia.
  unfold Binary64.scale. destruct (Z.ltb_spec 0 (k - 52)); [lia|].
  unfold Binary64.overflows. destruct (Z.ltb_spec 0 (k - 52)); [lia|].
  simpl. f_equal. rewrite Qceiling_value by lia.
  replace (- (k - 52)) with (52 - k) by lia.
  set (J := 2 ^ (52 - k)).
  set (m := Binary64.nearest_even (t * J) p).
  set (c := - (- t / p)).
  assert (HJ : 0 < J) by (apply Z.pow_pos_nonneg; lia).
  assert (Hc : (c - 1) * p < t <= c * p).
  { subst c. pose proof (Z.div_mod (- t) p ltac:(lia)).
    pose proof (Z.mod_pos_bound (- t) p ltac:(lia)). nia. }
  assert (Hwide : p < 2 * J).
  { unfold Number.MAX_SAFE_INTEGER in *.
    destruct (Z_lt_le_dec k 0) as [Hkneg | Hknn].
    - subst J. replace (52 - k) with (53 + (- k - 1)) by lia.
      rewrite Z.pow_add_r by lia.
      assert (0 < 2 ^ (- k - 1)) by (apply Z.pow_pos_nonneg; lia). nia.
    - specialize (Hlow Hknn).
      assert (Hsplit : 2 ^ 53 = 2 * (2 ^ k * J)).
      { subst J. rewrite <- Z.pow_add_r by lia.
        replace (k + (52 - k)) with 52 by lia. reflexivity. }
      assert (0 < 2 ^ k) by (apply Z.pow_pos_nonneg; lia).
      nia. }
  assert (Hup : m <= c * J).
  { apply nearest_even_le; [lia | nia]. }
  assert (Hdown : (c - 1) * J + 1 <= m).
  { destruct (Z.eq_dec t (c * p)) as [Hexact | Hrest].
    - assert (c * J <= m) by (apply nearest_even_ge; [lia | nia]). lia.
    - apply nearest_even_past_half; [lia | nia]. }
  assert (- m / J = - c); [|lia].
  symmetry. apply (Z.div_unique_pos (- m) J (- c) (c * J - m)); lia.
Qed.

(** On safe integers with a positive divisor, [Math.ceil(t / p)] is the
    least integer [n] with [t <= n * p]. *)
Lemma ceil_div_least (t p : Z) :
  0 <= t <= Number.MAX_SAFE_INTEGER ->
  0 < p <= Number.MAX_SAFE_INTEGER ->
  exists n, Math.ceil (Number.div (Int t) (Int p)) = Int n
            /\ t <= n * p /\ forall m, t <= m * p -> n <= m.
Proof.
  intros Ht Hp. exists (- ((- t) / p)). split; [|split].
  - now apply ceil_div_safe.
  - pose proof (Z.mul_div_le (- t) p ltac:(lia)). nia.
  - intros m Hm.
    assert (- m <= (- t) / p); [|lia].
    apply Z.div_le_lower_bound; nia.
Qed.

(** A product that is a safe integer is computed exactly. *)
Lemma mul_safe (x y : Z) :
  Z.abs (x * y) <= Number.MAX_SAFE_INTEGER ->
  Number.mul (Int x) (Int y) = Int (x * y).
Proof.
  intros Hsafe. simpl. unfold Number.round_integer.
  destruct (Z.leb_spec (Z.abs (x * y)) Number.MAX_SAFE_INTEGER); [reflexivity | lia].
Qed.

(** ** Equality of numbers *)

Lemma strict_eq_true (a b : number) : Number.strict_eq a b = true -> a = b.
Proof.
  destruct a, b; simpl; try discriminate; try reflexivity.
  intros H. apply Z.eqb_eq in H. now subst.
Qed.

Lemma strict_eq_refl (a : number) : a <> NaN -> Number.strict_eq a a = true.
Proof.
  destruct a; simpl; intros H; try reflexivity.
  - apply Z.eqb_refl.
  - now contradiction H.
Qed.

Lemma same_value_true (a b : number) : Number.same_value a b = true -> a = b.
Proof.
  destruct a, b; simpl; try discriminate; try reflexivity.
  intros H. apply Z.eqb_eq in H. now subst.
Qed.

Lemma same_value_refl (a : number) : Number.same_value a a = true.
Proof.
  destruct a; simpl; try reflexivity. apply Z.eqb_refl.
Qed.

(** ** What the code after an [await] does to the world *)

(** Case analysis on every comparison mobx makes in the goal. *)
Ltac by_changes :=
  repeat match goal with
         | |- context [Number.same_value ?a ?b] =>
             destruct (Number.same_value a b)
         end.

(** Between two turns of the event loop [updateSyncProgress] writes both
    fields and lets the observers run once, unless neither value is new. *)
Lemma updateSyncProgress_idle (params : UpdateSyncAction.t) (w : World) :
  batch w = 0%nat ->
  pendingReactions w = false ->
  updateSyncProgress params w =
    (let s := set_totalInodesToSync (UpdateSyncAction.totalInodes params)
                (set_inodesSynced (UpdateSyncAction.inodesSynced params) (this w)) in
     {| this := s; batch := 0;
        instants :=
          if Number.same_value (inodesSynced (this w))
               (UpdateSyncAction.inodesSynced params)
             && Number.same_value (totalInodesToSync (this w))
                  (UpdateSyncAction.totalInodes params)
          then instants w else s :: instants w;
        console := console w; subscriptions := subscriptions w;
        pendingReactions := false |},
     Normal tt).
Proof.
  destruct w as [s b i c n pr]. simpl. intros -> ->.
  unfold updateSyncProgress, action, bind, assign_number, assign, reportChanged,
    startBatch, endBatch. simpl.
  by_changes; reflexivity.
Qed.

(** Whatever the transaction depth, [updateSearchResults] stores the page
    count computed from the page size the store has at that moment. *)
Lemma updateSearchResults_pages (params : UpdateSearchResultsAction.t) (w : World) :
  pages (this (fst (updateSearchResults params w))) =
    Math.ceil (Number.div (UpdateSearchResultsAction.total params)
                 (resultsPerPage (this w)))
  /\ searchResults (this (fst (updateSearchResults params w))) =
       UpdateSearchResultsAction.data params.
Proof.
  destruct w as [s [|[|b]] i c n [|]];
    unfold updateSearchResults, action, bind, assign_number, assign_array, assign,
      reportChanged, startBatch, endBatch, read; simpl;
    by_changes; split; reflexivity.
Qed.

Lemma updateSearchResults_keeps_page_size
    (params : UpdateSearchResultsAction.t) (w : World) :
  resultsPerPage (this (fst (updateSearchResults params w)))
    = resultsPerPage (this w).
Proof.
  destruct w as [s [|[|b]] i c n [|]];
    unfold updateSearchResults, action, bind, assign_number, assign_array, assign,
      reportChanged, startBatch, endBatch, read; simpl;
    by_changes; reflexivity.
Qed.

(** [updateSearchResults] does not throw. *)
Lemma updateSearchResults_returns (params : UpdateSearchResultsAction.t) (w : World) :
  snd (updateSearchResults params w) = Normal tt.
Proof.
  reflexivity.
Qed.

(** A resolved [search] or [getLatest] is [updateSearchResults] on what
    the database returned, and fulfils the caller's promise. *)
Lemma query_resolved (w0 w : World) (found : Pageable.t)
    (sp : SearchParams.t) (lp : GetLatestParams.t) :
  let params := {| UpdateSearchResultsAction.total := Pageable.total found;
                   UpdateSearchResultsAction.data := Pageable.data found |} in
  finish (invoke (CallSearch sp) w0) (Resolved found) w
    = (fst (updateSearchResults params w), CallerSees (Resolved tt))
  /\ finish (invoke (CallGetLatest lp) w0) (Resolved found) w
     = (fst (updateSearchResults params w), CallerSees (Resolved tt)).
Proof.
  intros params.
  assert (Hs : finish (invoke (CallSearch sp) w0) (Resolved found) w
               = (fst (updateSearchResults params w), CallerSees (Resolved tt))).
  { unfold finish, invoke, search. cbn [promise returned resume].
    unfold bind, await, ret. fold params.
    pose proof (updateSearchResults_returns params w) as Hret.
    destruct (updateSearchResults params w) as [w' r]. simpl in Hret. subst r.
    reflexivity. }
  split; [exact Hs | rewrite <- Hs; reflexivity].
Qed.

(** ** Construction *)

(** C3, as the code has it: a freshly constructed store, whatever the
    owning context, the scope identifier and the page size, has sync
    progress [{synced: 0, total: Infinity}] and no items, but its page
    count starts at 1; nothing has been observed, logged or subscribed. *)
Theorem fresh_store_state
    (rootStore : RootStore) (contractAddress : string) (resultsPerPage : number) :
  let s := new_InodeStore rootStore contractAddress resultsPerPage in
  inodesSynced s = Int 0
  /\ totalInodesToSync s = Infinity
  /\ searchResults s = []
  /\ pages s = Int 1
  /\ world (start rootStore contractAddress resultsPerPage) = boot s.
Proof.
  cbv zeta. repeat split.
Qed.

(** C3 as stated fails: the page count of a fresh store is not 0. *)
Lemma fresh_store_pages_not_zero :
  pages (new_InodeStore {| root_identity := 0 |} "0xC0FFEE" (Int 10)) = Int 1
  /\ pages (new_InodeStore {| root_identity := 0 |} "0xC0FFEE" (Int 10)) <> Int 0.
Proof.
  split; [reflexivity | discriminate].
Qed.

(** ** Completion indicator *)

(** C4: on every store state whose [synced] is a number of the data model
    (not [NaN]), [isDbSyncing] is true exactly when synced equals total.
    Scenario A: a fresh store is not complete; after the event
    [{synced: 5, total: 20}] it is not complete; after the further event
    [{synced: 20, total: 20}] it is complete. *)
Theorem isDbSyncing_iff_synced_eq_total (s : InodeStore) :
  inodesSynced s <> NaN ->
  (isDbSyncing s = true <-> inodesSynced s = totalInodesToSync s)
  /\ (forall rootStore contractAddress resultsPerPage,
        let w0 := boot (new_InodeStore rootStore contractAddress resultsPerPage) in
        let w1 := fst (syncCallback None
                         (Some (SyncState.mk (Int 5) (Int 20))) w0) in
        let w2 := fst (syncCallback None
                         (Some (SyncState.mk (Int 20) (Int 20))) w1) in
        totalInodesToSync (this w0) = Infinity
        /\ isDbSyncing (this w0) = false
        /\ isDbSyncing (this w1) = false
        /\ isDbSyncing (this w2) = true).
Proof.
  intros Hnum. split.
  - unfold isDbSyncing. split.
    + apply strict_eq_true.
    + intros <-. now apply strict_eq_refl.
  - intros. repeat split.
Qed.

(** The indicator on the store of Scenario B, where synced is 0. *)
Lemma isDbSyncing_iff_synced_eq_total_witness :
  inodesSynced (this after_latest) <> NaN
  /\ (isDbSyncing (this after_latest) = true
      <-> inodesSynced (this after_latest) = totalInodesToSync (this after_latest)).
Proof.
  assert (H : inodesSynced (this after_latest) <> NaN) by discriminate.
  split; [exact H|].
  exact (proj1 (isDbSyncing_iff_synced_eq_total (this after_latest) H)).
Defined.

(** ** Pagination *)

(** C5, as the code has it: with page size [P > 0] and page index
    [i >= 0], [search] and [getLatest] both issue their database request
    with [limit = P], and with [offset = P * i] as long as that product is
    a safe integer (at most [2^53 - 1]); the code multiplies binary64
    numbers. *)
Theorem query_limit_offset
    (w : World) (P i : Z) (query : string) :
  resultsPerPage (this w) = Int P ->
  0 < P ->
  0 <= i ->
  P * i <= Number.MAX_SAFE_INTEGER ->
  request (search {| SearchParams.query := query; SearchParams.page := Int i |} w)
    = db_search query (Int P) (Int (P * i))
  /\ request (getLatest {| GetLatestParams.page := Int i |} w)
    = db_latest (Int P) (Int (P * i)).
Proof.
  intros HP Hpos Hi Hsafe. unfold search, getLatest.
  cbn [request SearchParams.query SearchParams.page GetLatestParams.page].
  rewrite HP, mul_safe by (rewrite Z.abs_eq; nia).
  split; reflexivity.
Qed.

(** Page size 10, page index 2: limit 10 and offset 20. *)
Lemma query_limit_offset_witness :
  request (search {| SearchParams.query := "cat"; SearchParams.page := Int 2 |}
             sample_world)
    = db_search "cat" (Int 10) (Int 20)
  /\ request (getLatest {| GetLatestParams.page := Int 2 |} sample_world)
    = db_latest (Int 10) (Int 20).
Proof.
  assert (Hsafe : 10 * 2 <= Number.MAX_SAFE_INTEGER) by (vm_compute; discriminate).
  apply (query_limit_offset sample_world 10 2 "cat");
    [reflexivity | lia | lia | exact Hsafe].
Defined.

(** C5 as stated fails: with page size 94906267 and page index 94906267
    the product is 9007199515875289, which is no binary64 value, and the
    request goes out with offset 9007199515875288. *)
Lemma query_offset_is_rounded :
  request (getLatest {| GetLatestParams.page := Int 94906267 |} wide_pages_world)
    = db_latest (Int 94906267) (Int 9007199515875288)
  /\ request (search {| SearchParams.query := "cat";
                        SearchParams.page := Int 94906267 |} wide_pages_world)
     = db_search "cat" (Int 94906267) (Int 9007199515875288)
  /\ 94906267 * 94906267 = 9007199515875289
  /\ Int 9007199515875288 <> Int (94906267 * 94906267).
Proof.
  split; [vm_compute; reflexivity|].
  split; [vm_compute; reflexivity|].
  split; [reflexivity | discriminate].
Qed.

(** C6, as the code has it: when a query resolves with total count
    [T >= 0] and the page size is [P > 0], both safe integers (at most
    [2^53 - 1]), the stored page count is the integer [ceil(T / P)], that
    is the least [n] with [T <= n * P]; a total of 0 gives 0 pages.  The
    same holds for [search] and for [getLatest], and the stored items are
    the returned ones. *)
Theorem pages_is_ceiling
    (w0 w : World) (P T : Z) (found : Pageable.t)
    (sp : SearchParams.t) (lp : GetLatestParams.t) :
  resultsPerPage (this w) = Int P ->
  0 < P <= Number.MAX_SAFE_INTEGER ->
  Pageable.total found = Int T ->
  0 <= T <= Number.MAX_SAFE_INTEGER ->
  let after_search := finish (invoke (CallSearch sp) w0) (Resolved found) w in
  let after_getLatest := finish (invoke (CallGetLatest lp) w0) (Resolved found) w in
  exists n : Z,
    pages (this (fst after_search)) = Int n
    /\ pages (this (fst after_getLatest)) = Int n
    /\ T <= n * P
    /\ (forall m, T <= m * P -> n <= m)
    /\ (T = 0 -> n = 0)
    /\ searchResults (this (fst after_search)) = Pageable.data found
    /\ searchResults (this (fst after_getLatest)) = Pageable.data found
    /\ snd after_search = CallerSees (Resolved tt)
    /\ snd after_getLatest = CallerSees (Resolved tt).
Proof.
  intros HP Hpos HT Hnonneg after_search after_getLatest.
  destruct (ceil_div_least T P Hnonneg Hpos) as (n & Hceil & Hup & Hleast).
  exists n.
  destruct (query_resolved w0 w found sp lp) as [Hs Hl].
  set (params := {| UpdateSearchResultsAction.total := Pageable.total found;
                    UpdateSearchResultsAction.data := Pageable.data found |}) in *.
  assert (Hrun : pages (this (fst (updateSearchResults params w))) = Int n).
  { rewrite (proj1 (updateSearchResults_pages params w)).
    subst params. cbn [UpdateSearchResultsAction.total]. rewrite HT, HP.
    exact Hceil. }
  subst after_search after_getLatest. rewrite Hs, Hl. cbn [fst snd].
  split; [exact Hrun|].
  split; [exact Hrun|].
  split; [exact Hup|].
  split; [exact Hleast|].
  split; [intros ->; specialize (Hleast 0); nia|].
  split; [apply (updateSearchResults_pages params w)|].
  split; [apply (updateSearchResults_pages params w)|].
  split; reflexivity.
Qed.

(** Scenario B: 27 results at 10 per page are 3 pages. *)
Lemma pages_is_ceiling_witness :
  exists n : Z,
    pages (this after_latest) = Int n
    /\ 27 <= n * 10
    /\ (forall m, 27 <= m * 10 -> n <= m).
Proof.
  assert (Hpos : 0 < 10 <= Number.MAX_SAFE_INTEGER)
    by (split; [lia | vm_compute; discriminate]).
  assert (Hnonneg : 0 <= 27 <= Number.MAX_SAFE_INTEGER)
    by (split; [lia | vm_compute; discriminate]).
  destruct (pages_is_ceiling sample_world sample_world 10 27
              {| Pageable.data := seven_inodes; Pageable.total := Int 27 |}
              {| SearchParams.query := "cat"; SearchParams.page := Int 2 |}
              {| GetLatestParams.page := Int 2 |}
              eq_refl Hpos eq_refl Hnonneg)
    as (n & _ & Hpages & Hup & Hleast & _).
  exists n. split; [exact Hpages | split; [exact Hup | exact Hleast]].
Defined.

(** C6 as stated fails: at 3 results per page a query that resolves with
    a total of [2^54] stores 6004799503160661 pages, which hold fewer than
    [2^54] results; the quotient was rounded to binary64 before
    [Math.ceil]. *)
Lemma pages_below_ceiling :
  pages (this (fst (finish
      (invoke (CallGetLatest {| GetLatestParams.page := Int 0 |}) three_per_page_world)
      (Resolved {| Pageable.data := seven_inodes; Pageable.total := Int (2 ^ 54) |})
      three_per_page_world)))
    = Int 6004799503160661
  /\ pages (this (fst (finish
      (invoke (CallSearch {| SearchParams.query := "cat"; SearchParams.page := Int 0 |})
         three_per_page_world)
      (Resolved {| Pageable.data := seven_inodes; Pageable.total := Int (2 ^ 54) |})
      three_per_page_world)))
    = Int 6004799503160661
  /\ ~ (2 ^ 54 <= 6004799503160661 * 3).
Proof.
  split; [vm_compute; reflexivity|].
  split; [vm_compute; reflexivity|].
  intros H. vm_compute in H. apply H. reflexivity.
Qed.

(** ** Queries that fail, and what queries leave alone *)

(** C7: when the database rejects a [search] or a [getLatest], the promise
    the caller holds is rejected with the same reason and the world is
    what it was when the rejection arrived: items and page count (the
    store keeps no total count) are untouched, and so is everything else. *)
Theorem query_rejection_propagates
    (w0 w : World) (e : Err) (sp : SearchParams.t) (lp : GetLatestParams.t) :
  finish (invoke (CallSearch sp) w0) (Rejected e) w = (w, CallerSees (Rejected e))
  /\ finish (invoke (CallGetLatest lp) w0) (Rejected e) w
     = (w, CallerSees (Rejected e))
  /\ returned (invoke (CallSearch sp) w0) = Thenable (search sp w0)
  /\ returned (invoke (CallGetLatest lp) w0) = Thenable (getLatest lp w0).
Proof.
  repeat split.
Qed.

(** C10: however a [search] or a [getLatest] settles, [inodesSynced] and
    [totalInodesToSync] are what they were when the request settled. *)
Theorem queries_keep_sync_progress
    (w0 w : World) (p : settled Pageable.t)
    (sp : SearchParams.t) (lp : GetLatestParams.t) :
  let after_search := fst (finish (invoke (CallSearch sp) w0) p w) in
  let after_getLatest := fst (finish (invoke (CallGetLatest lp) w0) p w) in
  inodesSynced (this after_search) = inodesSynced (this w)
  /\ totalInodesToSync (this after_search) = totalInodesToSync (this w)
  /\ inodesSynced (this after_getLatest) = inodesSynced (this w)
  /\ totalInodesToSync (this after_getLatest) = totalInodesToSync (this w).
Proof.
  destruct p as [found | e]; destruct w as [s [|[|b]] i c k [|]];
    cbv zeta; cbn; by_changes; repeat split.
Qed.

(** ** Clearing *)

(** What [clear] does when the purge settles.  If it resolves, the
    caller's promise is fulfilled, the items are empty, and page count and
    sync progress are what they were.  If it rejects, the caller's promise
    is rejected with the same reason and the world is what it was. *)
Lemma clear_effect (w0 w : World) :
  request (promise (invoke CallClear w0)) = clearData
  /\ (let done := finish (invoke CallClear w0) (Resolved tt) w in
      snd done = CallerSees (Resolved tt)
      /\ searchResults (this (fst done)) = []
      /\ pages (this (fst done)) = pages (this w)
      /\ inodesSynced (this (fst done)) = inodesSynced (this w)
      /\ totalInodesToSync (this (fst done)) = totalInodesToSync (this w))
  /\ (forall e : Err,
        finish (invoke CallClear w0) (Rejected e) w = (w, CallerSees (Rejected e))).
Proof.
  destruct w as [s [|b] i c k pr]; repeat split.
Qed.

(** C1, the code at the failing input: after a query left three pages
    (Scenario B), a [clear] whose purge resolves empties the items and
    leaves the page count at 3 where the claim has 0. *)
Theorem clear_keeps_page_count :
  pages (this after_latest) = Int 3
  /\ searchResults (this after_clear) = []
  /\ pages (this after_clear) = Int 3
  /\ pages (this after_clear) <> Int 0.
Proof.
  assert (H : pages (this after_clear) = Int 3) by (vm_compute; reflexivity).
  split; [vm_compute; reflexivity|].
  split; [reflexivity|].
  split; [exact H|].
  rewrite H. discriminate.
Qed.

(** ** Initialization *)

(** C2, as the code has it: [init] returns nothing to its caller and drops
    the promise of [initiator].  When [getSyncState] rejects, nothing
    catches the reason, the world is unchanged (no progress applied, no
    callback registered), and the rejection is an unhandled one: no caller
    holds a promise it could arrive through. *)
Theorem init_rejection_is_unhandled (w0 w : World) (e : Err) :
  returned (init w0) = Undefined
  /\ request (promise (init w0)) = getSyncState
  /\ finish (invoke CallInit w0) (Rejected e) w = (w, UnhandledRejection e).
Proof.
  repeat split.
Qed.

(** C2 as stated fails: the caller of [init] got [undefined] back and is
    not shown the rejection of [getSyncState]. *)
Lemma init_rejection_not_shown_to_caller :
  returned (invoke CallInit sample_world) = Undefined
  /\ snd (finish (invoke CallInit sample_world) (Rejected unavailable) sample_world)
     = UnhandledRejection unavailable
  /\ snd (finish (invoke CallInit sample_world) (Rejected unavailable) sample_world)
     <> CallerSees (Rejected unavailable)
  /\ heard (settle (invoke CallInit sample_world) (Rejected unavailable) []
              (enter CallInit (start {| root_identity := 0 |} "0xC0FFEE" (Int 10))))
     = [TaskEnded (UnhandledRejection unavailable)].
Proof.
  split; [reflexivity|].
  split; [reflexivity|].
  split; [discriminate | reflexivity].
Qed.

(** ** Sync events *)

(** C8: the callback given to [startSync], invoked between two turns of
    the event loop.  With an error: one warning is logged, the callback
    returns, and store, observed instants and subscriptions are unchanged.
    With neither error nor snapshot: it throws [Error("Result must
    exist")] and changes nothing.  With a snapshot and no error: [synced]
    and [total] become the snapshot's and the other fields keep their
    values; observers get one new instant, which already shows both new
    values, when the snapshot differs from the progress the store held,
    and none when it is the same; they never see one field updated
    without the other. *)
Theorem syncCallback_cases (w : World) :
  batch w = 0%nat ->
  pendingReactions w = false ->
  (forall (e : Err) (syncState : option SyncState.t),
      let r := syncCallback (Some e) syncState w in
      snd r = Normal tt
      /\ console (fst r)
         = {| label := "Error while syncing:"; reason := e |} :: console w
      /\ this (fst r) = this w
      /\ instants (fst r) = instants w
      /\ subscriptions (fst r) = subscriptions w)
  /\ syncCallback None None w = (w, Thrown (Error "Result must exist"))
  /\ (forall syncState : SyncState.t,
        let r := syncCallback None (Some syncState) w in
        snd r = Normal tt
        /\ inodesSynced (this (fst r)) = SyncState.numSynced syncState
        /\ totalInodesToSync (this (fst r)) = SyncState.total syncState
        /\ searchResults (this (fst r)) = searchResults (this w)
        /\ pages (this (fst r)) = pages (this w)
        /\ resultsPerPage (this (fst r)) = resultsPerPage (this w)
        /\ instants (fst r)
           = (if Number.same_value (inodesSynced (this w))
                   (SyncState.numSynced syncState)
                 && Number.same_value (totalInodesToSync (this w))
                      (SyncState.total syncState)
              then instants w
              else this (fst r) :: instants w)
        /\ console (fst r) = console w).
Proof.
  intros Hidle Hquiet. split; [|split].
  - intros e syncState. repeat split.
  - reflexivity.
  - intros syncState r. subst r. unfold syncCallback.
    rewrite (updateSyncProgress_idle _ w Hidle Hquiet).
    cbn. repeat split.
Qed.

(** On a fresh store the callback without error and snapshot throws. *)
Lemma syncCallback_cases_witness :
  batch sample_world = 0%nat
  /\ pendingReactions sample_world = false
  /\ syncCallback None None sample_world
     = (sample_world, Thrown (Error "Result must exist")).
Proof.
  split; [reflexivity|]. split; [reflexivity|].
  exact (proj1 (proj2 (syncCallback_cases sample_world eq_refl eq_refl))).
Defined.

(** ** The ordering invariant along runs *)

Lemma sound_start (rootStore : RootStore) (contractAddress : string)
    (resultsPerPage : number) :
  sound (start rootStore contractAddress resultsPerPage).
Proof.
  unfold sound, start, boot. simpl.
  split; [reflexivity|].
  split; [reflexivity|].
  split; [intros H; discriminate H|].
  split; constructor.
Qed.

(** A task of the store, settled between two turns, changes the sync
    progress only when it is [initiator] receiving a snapshot. *)
Lemma finish_keeps_order (c : Call) (w0 w : World)
    (p : settled (reply (request (promise (invoke c w0))))) :
  honest ordered_snapshot _ p ->
  batch w = 0%nat ->
  pendingReactions w = false ->
  ordered_store (this w) ->
  Forall ordered_store (instants w) ->
  let w' := fst (finish (invoke c w0) p w) in
  batch w' = 0%nat
  /\ pendingReactions w' = false
  /\ ordered_store (this w')
  /\ Forall ordered_store (instants w').
Proof.
  intros Hhonest Hidle Hquiet Hthis Hseen.
  destruct w as [s b i k n pr]. simpl in Hidle, Hquiet. subst b pr.
  simpl in Hthis, Hseen.
  destruct c; simpl in p; destruct p as [a | e]; simpl in Hhonest; cbn;
    by_changes; cbn;
    repeat split; try assumption; try (constructor; assumption).
Qed.

Lemma deliver_keeps_order (err : option Err) (syncState : option SyncState.t)
    (w : World) :
  (forall s, err = None -> syncState = Some s -> ordered_snapshot s) ->
  batch w = 0%nat ->
  pendingReactions w = false ->
  ordered_store (this w) ->
  Forall ordered_store (instants w) ->
  let w' := fst (syncCallback err syncState w) in
  batch w' = 0%nat
  /\ pendingReactions w' = false
  /\ ordered_store (this w')
  /\ Forall ordered_store (instants w').
Proof.
  intros Hcontract Hidle Hquiet Hthis Hseen.
  destruct w as [s b i k n pr]. simpl in Hidle, Hquiet. subst b pr.
  simpl in Hthis, Hseen.
  destruct err as [e |]; [| destruct syncState as [st |]]; cbn;
    [| pose proof (Hcontract st eq_refl eq_refl) as Hst |];
    by_changes; cbn;
    repeat split; try assumption; try (constructor; assumption).
Qed.

Lemma step_sound (sys sys' : System) :
  step ordered_snapshot sys sys' -> sound sys -> sound sys'.
Proof.
  intros Hstep (Hidle & Hquiet & Hthis & Hseen & Htasks).
  destruct Hstep as [c sys | sys before after t p Hin Hhonest | sys err st Hsub Hc].
  - repeat split; try assumption.
    constructor; [now exists c, (world sys) | assumption].
  - rewrite Hin in Htasks.
    apply Forall_app in Htasks. destruct Htasks as [Hbefore Hrest].
    inversion Hrest as [| t' rest' Ht Hafter]; subst t' rest'.
    destruct Ht as (c & w0 & ->).
    destruct (finish_keeps_order c w0 (world sys) p Hhonest Hidle Hquiet Hthis Hseen)
      as (Hidle' & Hquiet' & Hthis' & Hseen').
    unfold settle, sound.
    destruct (finish (invoke c w0) p (world sys)) as [w' o]. simpl in *.
    repeat split; try assumption.
    apply Forall_app. split; assumption.
  - destruct (deliver_keeps_order err st (world sys) Hc Hidle Hquiet Hthis Hseen)
      as (Hidle' & Hquiet' & Hthis' & Hseen').
    unfold deliver, sound.
    destruct (syncCallback err st (world sys)) as [w' o]. simpl in *.
    repeat split; assumption.
Qed.

(** C9, as the code has it: the store copies what the database reports, so
    the ordering is the database's to keep.  If every snapshot the
    database hands out ([getSyncState] and sync events alike) has
    [synced <= total] whenever its total is finite, then in every state
    reachable from a fresh store, by any calls, settlements and sync
    events, the store has [synced <= total] whenever total is finite, and
    so had every instant observers saw. *)
Theorem ordered_along_runs
    (rootStore : RootStore) (contractAddress : string) (resultsPerPage : number)
    (sys : System) :
  reachable ordered_snapshot (start rootStore contractAddress resultsPerPage) sys ->
  ordered_store (this (world sys))
  /\ Forall ordered_store (instants (world sys)).
Proof.
  intros Hreach.
  assert (Hsound : sound sys).
  { induction Hreach as [| sys sys' _ IH Hstep].
    - apply sound_start.
    - exact (step_sound sys sys' Hstep IH). }
  destruct Hsound as (_ & _ & Hthis & Hseen & _). split; assumption.
Qed.

(** [init()] and then a snapshot the contract allows is a run. *)
Lemma reachable_initialized (contract : SyncState.t -> Prop) (syncState : SyncState.t) :
  contract syncState ->
  reachable contract (start {| root_identity := 0 |} "0xC0FFEE" (Int 10))
    (initialized syncState).
Proof.
  intros Hok.
  set (sys0 := start {| root_identity := 0 |} "0xC0FFEE" (Int 10)).
  apply reach_step with (sys := enter CallInit sys0).
  - apply reach_step with (sys := sys0); [apply reach_origin | apply step_enter].
  - exact (step_settle contract (enter CallInit sys0) [] []
             (invoke CallInit (world sys0)) (Resolved syncState) eq_refl Hok).
Defined.

(** A database reporting 5 of 20 leaves the store ordered. *)
Lemma ordered_along_runs_witness :
  reachable ordered_snapshot (start {| root_identity := 0 |} "0xC0FFEE" (Int 10))
    (initialized (SyncState.mk (Int 5) (Int 20)))
  /\ ordered_store (this (world (initialized (SyncState.mk (Int 5) (Int 20))))).
Proof.
  assert (Hreach : reachable ordered_snapshot
                     (start {| root_identity := 0 |} "0xC0FFEE" (Int 10))
                     (initialized (SyncState.mk (Int 5) (Int 20)))).
  { apply reachable_initialized. intros _. reflexivity. }
  split; [exact Hreach|].
  exact (proj1 (ordered_along_runs _ _ _ _ Hreach)).
Defined.

(** C9 as stated fails: with no assumption on the database, [init]
    followed by [getSyncState] resolving to [{numSynced: 30, total: 20}]
    reaches a store whose total is finite and whose synced exceeds it. *)
Lemma disordered_state_reachable :
  reachable any_snapshot (start {| root_identity := 0 |} "0xC0FFEE" (Int 10))
    (initialized (SyncState.mk (Int 30) (Int 20)))
  /\ inodesSynced (this (world (initialized (SyncState.mk (Int 30) (Int 20))))) = Int 30
  /\ totalInodesToSync (this (world (initialized (SyncState.mk (Int 30) (Int 20)))))
     = Int 20
  /\ ~ ordered_store (this (world (initialized (SyncState.mk (Int 30) (Int 20))))).
Proof.
  split; [apply reachable_initialized; exact I|].
  split; [reflexivity|].
  split; [reflexivity|].
  intros H. specialize (H eq_refl). discriminate H.
Qed.

(** ** Initialization that succeeds *)

(** X1: when the [getSyncState] of an [init] resolves, between two turns
    of the event loop, the sync progress becomes the resolved snapshot,
    the callback is handed to [startSync] once more (no guard against a
    second [init]), items, page count and page size keep their values,
    nothing is logged, and the task ends with nobody watching.  Observers
    get one new instant, showing both new values, when the snapshot
    differs from the progress the store held, and none when it is the
    same. *)
Theorem init_resolved_applies_and_subscribes
    (w0 w : World) (syncState : SyncState.t) :
  batch w = 0%nat ->
  pendingReactions w = false ->
  let r := finish (invoke CallInit w0) (Resolved syncState) w in
  snd r = Unobserved
  /\ inodesSynced (this (fst r)) = SyncState.numSynced syncState
  /\ totalInodesToSync (this (fst r)) = SyncState.total syncState
  /\ subscriptions (fst r) = S (subscriptions w)
  /\ searchResults (this (fst r)) = searchResults (this w)
  /\ pages (this (fst r)) = pages (this w)
  /\ resultsPerPage (this (fst r)) = resultsPerPage (this w)
  /\ instants (fst r)
     = (if Number.same_value (inodesSynced (this w))
             (SyncState.numSynced syncState)
           && Number.same_value (totalInodesToSync (this w))
                (SyncState.total syncState)
        then instants w
        else this (fst r) :: instants w)
  /\ console (fst r) = console w
  /\ batch (fst r) = 0%nat.
Proof.
  intros Hidle Hquiet. destruct w as [s b i c n pr].
  simpl in Hidle, Hquiet. subst b pr.
  cbv zeta. cbn. by_changes; repeat split.
Qed.

(** A fresh store, [init], the database reports 5 of 20. *)
Lemma init_resolved_applies_and_subscribes_witness :
  batch sample_world = 0%nat
  /\ pendingReactions sample_world = false
  /\ subscriptions
       (fst (finish (invoke CallInit sample_world)
               (Resolved (SyncState.mk (Int 5) (Int 20))) sample_world))
     = 1%nat.
Proof.
  split; [reflexivity|]. split; [reflexivity|].
  exact (proj1 (proj2 (proj2 (proj2
    (init_resolved_applies_and_subscribes sample_world sample_world
       (SyncState.mk (Int 5) (Int 20)) eq_refl eq_refl))))).
Defined.

(** ** Pages and offsets together *)

(** X2: after a query resolved with total [T >= 0] under page size
    [P > 0], both safe integers, the stored page count [n] is not
    negative, and a further query for a page index [i >= 0] whose exact
    offset [P * i] is a safe integer starts inside the [T] results (its
    offset is below [T]) exactly when [i < n]. *)
Theorem page_index_below_pages_iff_offset_below_total
    (w0 w : World) (P T : Z) (found : Pageable.t) (lp : GetLatestParams.t) :
  resultsPerPage (this w) = Int P ->
  0 < P <= Number.MAX_SAFE_INTEGER ->
  Pageable.total found = Int T ->
  0 <= T <= Number.MAX_SAFE_INTEGER ->
  let w' := fst (finish (invoke (CallGetLatest lp) w0) (Resolved found) w) in
  exists n : Z,
    pages (this w') = Int n
    /\ 0 <= n
    /\ forall (i : Z) (query : string),
         0 <= i ->
         P * i <= Number.MAX_SAFE_INTEGER ->
         exists o : Z,
           request (search {| SearchParams.query := query;
                              SearchParams.page := Int i |} w')
             = db_search query (Int P) (Int o)
           /\ request (getLatest {| GetLatestParams.page := Int i |} w')
              = db_latest (Int P) (Int o)
           /\ (o < T <-> i < n).
Proof.
  intros HP Hpos HT Hnonneg w'.
  destruct (ceil_div_least T P Hnonneg Hpos) as (n & Hceil & Hup & Hleast).
  destruct (query_resolved w0 w found
              {| SearchParams.query := ""; SearchParams.page := Int 0 |} lp)
    as [_ Hl].
  set (params := {| UpdateSearchResultsAction.total := Pageable.total found;
                    UpdateSearchResultsAction.data := Pageable.data found |}) in *.
  assert (Hw : w' = fst (updateSearchResults params w)).
  { subst w'. rewrite Hl. reflexivity. }
  assert (Hpages : pages (this w') = Int n).
  { rewrite Hw, (proj1 (updateSearchResults_pages params w)).
    subst params. cbn [UpdateSearchResultsAction.total]. rewrite HT, HP.
    exact Hceil. }
  assert (Hsize : resultsPerPage (this w') = Int P).
  { rewrite Hw, updateSearchResults_keeps_page_size. exact HP. }
  exists n. split; [exact Hpages|]. split.
  - destruct (Z_lt_le_dec n 0) as [Hneg|]; [|assumption].
    specialize (Hleast (n - 1)). nia.
  - intros i query Hi Hsafe. exists (P * i).
    unfold search, getLatest.
    cbn [request SearchParams.query SearchParams.page GetLatestParams.page].
    rewrite Hsize, mul_safe by (rewrite Z.abs_eq; nia).
    split; [reflexivity|]. split; [reflexivity|].
    split.
    + intros Hlt. destruct (Z_lt_le_dec i n) as [|Hge]; [assumption|]. nia.
    + intros Hlt. destruct (Z_lt_le_dec (P * i) T) as [|Hge]; [assumption|].
      specialize (Hleast i). nia.
Qed.

(** Scenario B: of the page indices, 2 is inside 27 results, 3 is not. *)
Lemma page_index_below_pages_iff_offset_below_total_witness :
  exists n : Z, pages (this after_latest) = Int n /\ 0 <= n.
Proof.
  assert (Hpos : 0 < 10 <= Number.MAX_SAFE_INTEGER)
    by (split; [lia | vm_compute; discriminate]).
  assert (Hnonneg : 0 <= 27 <= Number.MAX_SAFE_INTEGER)
    by (split; [lia | vm_compute; discriminate]).
  destruct (page_index_below_pages_iff_offset_below_total
              sample_world sample_world 10 27
              {| Pageable.data := seven_inodes; Pageable.total := Int 27 |}
              {| GetLatestParams.page := Int 2 |}
              eq_refl Hpos eq_refl Hnonneg)
    as (n & Hpages & Hn & _).
  exists n. split; [exact Hpages | exact Hn].
Defined.

(** X3: the page size is not validated.  With page size 0, [search] and
    [getLatest] ask for limit 0, at offset 0 for every finite page index
    and at offset [NaN] for a page index that is infinite or [NaN]; and a
    resolved [search] or [getLatest] whose total is an integer [T >= 0]
    stores a page count of [Infinity] when [T] is positive and [NaN] when
    it is 0. *)
Theorem page_size_zero
    (w0 w : World) (T : Z) (found : Pageable.t)
    (sp : SearchParams.t) (lp : GetLatestParams.t) :
  resultsPerPage (this w) = Int 0 ->
  Pageable.total found = Int T ->
  0 <= T ->
  pages (this (fst (finish (invoke (CallSearch sp) w0) (Resolved found) w)))
    = (if T =? 0 then NaN else Infinity)
  /\ pages (this (fst (finish (invoke (CallGetLatest lp) w0) (Resolved found) w)))
     = (if T =? 0 then NaN else Infinity)
  /\ forall (page : number) (query : string),
       request (search {| SearchParams.query := query;
                          SearchParams.page := page |} w)
         = db_search query (Int 0)
             (if Number.isFinite page then Int 0 else NaN)
       /\ request (getLatest {| GetLatestParams.page := page |} w)
          = db_latest (Int 0)
              (if Number.isFinite page then Int 0 else NaN).
Proof.
  intros HP HT Hnonneg.
  destruct (query_resolved w0 w found sp lp) as [Hs Hl].
  rewrite Hs, Hl. cbn [fst].
  rewrite (proj1 (updateSearchResults_pages _ w)).
  cbn [UpdateSearchResultsAction.total]. rewrite HT, HP.
  split; [|split].
  - destruct T; try reflexivity; lia.
  - destruct T; try reflexivity; lia.
  - intros page query. unfold search, getLatest.
    cbn [request SearchParams.query SearchParams.page GetLatestParams.page].
    rewrite HP. destruct page; split; reflexivity.
Qed.

(** A store built with page size 0, a query finding 27 results. *)
Lemma page_size_zero_witness :
  pages (this (fst (finish
      (invoke (CallSearch {| SearchParams.query := "cat"; SearchParams.page := Int 0 |})
         (boot (new_InodeStore {| root_identity := 0 |} "0xC0FFEE" (Int 0))))
      (Resolved {| Pageable.data := seven_inodes; Pageable.total := Int 27 |})
      (boot (new_InodeStore {| root_identity := 0 |} "0xC0FFEE" (Int 0))))))
  = Infinity.
Proof.
  assert (Hnonneg : 0 <= 27) by lia.
  exact (proj1 (page_size_zero
    (boot (new_InodeStore {| root_identity := 0 |} "0xC0FFEE" (Int 0)))
    (boot (new_InodeStore {| root_identity := 0 |} "0xC0FFEE" (Int 0)))
    27 {| Pageable.data := seven_inodes; Pageable.total := Int 27 |}
    {| SearchParams.query := "cat"; SearchParams.page := Int 0 |}
    {| GetLatestParams.page := Int 0 |}
    eq_refl eq_refl Hnonneg)).
Defined.

(** ** Overlapping operations *)

(** X4: the code that runs when a query resolves uses nothing the query
    was called with.  Of a [search] and a [getLatest] both in flight, the
    one whose request resolves last decides items and page count,
    whichever was called first and whatever the store looked like at
    either call. *)
Theorem last_resolved_query_wins
    (wa wb w : World) (sp : SearchParams.t) (lp : GetLatestParams.t)
    (fs fl : Pageable.t) :
  let search_first :=
    fst (finish (invoke (CallGetLatest lp) wb) (Resolved fl)
           (fst (finish (invoke (CallSearch sp) wa) (Resolved fs) w))) in
  let latest_first :=
    fst (finish (invoke (CallSearch sp) wa) (Resolved fs)
           (fst (finish (invoke (CallGetLatest lp) wb) (Resolved fl) w))) in
  searchResults (this search_first) = Pageable.data fl
  /\ pages (this search_first)
     = Math.ceil (Number.div (Pageable.total fl) (resultsPerPage (this w)))
  /\ searchResults (this latest_first) = Pageable.data fs
  /\ pages (this latest_first)
     = Math.ceil (Number.div (Pageable.total fs) (resultsPerPage (this w))).
Proof.
  destruct w as [s [|[|b]] i c k [|]]; cbv zeta; cbn; by_changes; repeat split.
Qed.

(** X5: [clear] cancels nothing.  A query still in flight when the purge
    resolves puts its items and page count into the store when it
    resolves later; in the other order the items end up empty. *)
Theorem clear_does_not_cancel_queries
    (wa wb w : World) (sp : SearchParams.t) (found : Pageable.t) :
  let clear_first :=
    fst (finish (invoke (CallSearch sp) wa) (Resolved found)
           (fst (finish (invoke CallClear wb) (Resolved tt) w))) in
  let query_first :=
    fst (finish (invoke CallClear wb) (Resolved tt)
           (fst (finish (invoke (CallSearch sp) wa) (Resolved found) w))) in
  searchResults (this clear_first) = Pageable.data found
  /\ pages (this clear_first)
     = Math.ceil (Number.div (Pageable.total found) (resultsPerPage (this w)))
  /\ searchResults (this query_first) = []
  /\ pages (this query_first)
     = Math.ceil (Number.div (Pageable.total found) (resultsPerPage (this w))).
Proof.
  destruct w as [s [|[|b]] i c k [|]]; cbv zeta; cbn; by_changes; repeat split.
Qed.

(** X6: [clear] twice in a row: the second purge resolving fulfils the
    caller's promise like the first and leaves the store object exactly as
    the first left it. *)
Theorem clear_twice (w0 w1 w : World) :
  let once := finish (invoke CallClear w0) (Resolved tt) w in
  let twice := finish (invoke CallClear w1) (Resolved tt) (fst once) in
  snd once = CallerSees (Resolved tt)
  /\ snd twice = CallerSees (Resolved tt)
  /\ searchResults (this (fst twice)) = []
  /\ this (fst twice) = this (fst once).
Proof.
  destruct w as [s [|[|b]] i c k [|]]; cbv zeta; cbn; by_changes; repeat split.
Qed.

(** X7: what observers see of the result page.  Between two turns of the
    event loop, a resolved [search] or [getLatest] adds exactly one
    observed instant, the store with the new items and the new page count
    together; a resolved [clear] adds exactly one, the store with empty
    items; none of them touches the log or the subscriptions. *)
Theorem result_page_changes_in_one_instant
    (w0 w : World) (sp : SearchParams.t) (lp : GetLatestParams.t)
    (found : Pageable.t) :
  batch w = 0%nat ->
  let s := fst (finish (invoke (CallSearch sp) w0) (Resolved found) w) in
  let l := fst (finish (invoke (CallGetLatest lp) w0) (Resolved found) w) in
  let c := fst (finish (invoke CallClear w0) (Resolved tt) w) in
  (instants s = this s :: instants w
   /\ searchResults (this s) = Pageable.data found
   /\ pages (this s)
      = Math.ceil (Number.div (Pageable.total found) (resultsPerPage (this w))))
  /\ l = s
  /\ (instants c = this c :: instants w /\ searchResults (this c) = []
      /\ pages (this c) = pages (this w))
  /\ (console s = console w /\ subscriptions s = subscriptions w
      /\ console c = console w /\ subscriptions c = subscriptions w
      /\ batch s = 0%nat /\ batch c = 0%nat).
Proof.
  intros Hidle. destruct w as [st b i k n pr]. simpl in Hidle. subst b.
  destruct pr; cbv zeta; cbn; by_changes; repeat split.
Qed.

(** Scenario B adds one instant to a fresh store's empty history. *)
Lemma result_page_changes_in_one_instant_witness :
  batch sample_world = 0%nat
  /\ instants after_latest = [this after_latest].
Proof.
  split; [reflexivity|].
  destruct (result_page_changes_in_one_instant sample_world sample_world
              {| SearchParams.query := "cat"; SearchParams.page := Int 2 |}
              {| GetLatestParams.page := Int 2 |}
              {| Pageable.data := seven_inodes; Pageable.total := Int 27 |}
              eq_refl)
    as ((Hone & _) & Hsame & _).
  unfold after_latest. rewrite Hsame. exact Hone.
Defined.

(** ** What every run keeps *)

Lemma resolved_inits_task (o : Outcome) (h : list Heard) :
  resolved_inits (TaskEnded o :: h) =
    match o with
    | Unobserved => S (resolved_inits h)
    | _ => resolved_inits h
    end.
Proof.
  destruct o; reflexivity.
Qed.

(** A task of the store that settles between two turns either is an
    [init] whose fetch resolved, which subscribes and installs the
    snapshot, or leaves subscriptions and sync progress alone. *)
Lemma finish_effect (contract : SyncState.t -> Prop)
    (r : RootStore) (a : string) (P : number)
    (c : Call) (w0 w : World)
    (p : settled (reply (request (promise (invoke c w0))))) :
  honest contract _ p ->
  batch w = 0%nat ->
  pendingReactions w = false ->
  configured r a P (this w) ->
  let res := finish (invoke c w0) p w in
  batch (fst res) = 0%nat
  /\ pendingReactions (fst res) = false
  /\ configured r a P (this (fst res))
  /\ (instants (fst res) = instants w
      \/ instants (fst res) = this (fst res) :: instants w)
  /\ ((snd res = Unobserved
       /\ subscriptions (fst res) = S (subscriptions w)
       /\ reported contract (this (fst res)))
      \/ (snd res <> Unobserved
          /\ subscriptions (fst res) = subscriptions w
          /\ inodesSynced (this (fst res)) = inodesSynced (this w)
          /\ totalInodesToSync (this (fst res)) = totalInodesToSync (this w))).
Proof.
  intros Hhonest Hidle Hquiet Hconf.
  destruct w as [s b i k n pr]. simpl in Hidle, Hquiet. subst b pr.
  unfold configured in *. simpl in Hconf.
  destruct c; simpl in p; destruct p as [v | e]; simpl in Hhonest; cbn;
    by_changes; cbn.
  all: split; [reflexivity|].
  all: split; [reflexivity|].
  all: split; [exact Hconf|].
  all: split; [first [left; reflexivity | right; reflexivity]|].
  all: try (right; repeat split; discriminate).
  all: left; split; [reflexivity|]; split; [reflexivity|];
    exists v; repeat split; exact Hhonest.
Qed.

Lemma deliver_effect (contract : SyncState.t -> Prop)
    (r : RootStore) (a : string) (P : number)
    (err : option Err) (syncState : option SyncState.t) (w : World) :
  (forall s, err = None -> syncState = Some s -> contract s) ->
  batch w = 0%nat ->
  pendingReactions w = false ->
  configured r a P (this w) ->
  let res := syncCallback err syncState w in
  batch (fst res) = 0%nat
  /\ pendingReactions (fst res) = false
  /\ configured r a P (this (fst res))
  /\ (instants (fst res) = instants w
      \/ instants (fst res) = this (fst res) :: instants w)
  /\ subscriptions (fst res) = subscriptions w
  /\ (reported contract (this (fst res))
      \/ (inodesSynced (this (fst res)) = inodesSynced (this w)
          /\ totalInodesToSync (this (fst res)) = totalInodesToSync (this w))).
Proof.
  intros Hcontract Hidle Hquiet Hconf.
  destruct w as [s b i k n pr]. simpl in Hidle, Hquiet. subst b pr.
  unfold configured in *. simpl in Hconf.
  destruct err as [e |]; [| destruct syncState as [st |]]; cbn;
    [| pose proof (Hcontract st eq_refl eq_refl) as Hst |];
    by_changes; cbn.
  all: split; [reflexivity|].
  all: split; [reflexivity|].
  all: split; [exact Hconf|].
  all: split; [first [left; reflexivity | right; reflexivity]|].
  all: split; [reflexivity|].
  all: first [right; split; reflexivity
             | left; exists st; repeat split; exact Hst].
Qed.

Lemma coherent_start (contract : SyncState.t -> Prop)
    (r : RootStore) (a : string) (P : number) :
  coherent contract r a P (start r a P).
Proof.
  unfold coherent, start, boot, configured, initial_progress. simpl.
  split; [reflexivity|].
  split; [reflexivity|].
  split; [repeat split|].
  split; [constructor|].
  split; [constructor|].
  split; [reflexivity|].
  split; [left; split; reflexivity | intros _; split; reflexivity].
Qed.

Lemma step_coherent (contract : SyncState.t -> Prop)
    (r : RootStore) (a : string) (P : number) (sys sys' : System) :
  step contract sys sys' -> coherent contract r a P sys -> coherent contract r a P sys'.
Proof.
  intros Hstep (Hidle & Hquiet & Hconf & Hseen & Htasks & Hsubs & Hprog & Hnone).
  destruct Hstep as [c sys | sys before after t p Hin Hhonest | sys err st Hsub Hc].
  - unfold coherent, enter. simpl.
    split; [exact Hidle|]. split; [exact Hquiet|].
    split; [exact Hconf|]. split; [exact Hseen|].
    split; [constructor; [now exists c, (world sys) | assumption]|].
    split; [exact Hsubs|]. split; [exact Hprog | exact Hnone].
  - rewrite Hin in Htasks.
    apply Forall_app in Htasks. destruct Htasks as [Hbefore Hrest].
    inversion Hrest as [| t' rest' Ht Hafter]; subst t' rest'.
    destruct Ht as (c & w0 & ->).
    destruct (finish_effect contract r a P c w0 (world sys) p
                Hhonest Hidle Hquiet Hconf)
      as (Hidle' & Hquiet' & Hconf' & Hinst & Hcases).
    unfold settle, coherent.
    destruct (finish (invoke c w0) p (world sys)) as [w' o].
    cbn [fst snd world inflight heard] in *.
    split; [exact Hidle'|]. split; [exact Hquiet'|]. split; [exact Hconf'|].
    split; [destruct Hinst as [-> | ->]; [assumption | constructor; assumption]|].
    split; [apply Forall_app; split; assumption|].
    destruct Hcases as [(-> & Hs & Hrep) | (Ho & Hs & Hsy & Hto)].
    + split; [rewrite Hs, Hsubs; rewrite resolved_inits_task; reflexivity|].
      split; [right; exact Hrep|].
      rewrite Hs. discriminate.
    + split; [rewrite Hs, Hsubs, resolved_inits_task;
              destruct o; try reflexivity; now contradiction Ho|].
      unfold initial_progress, reported in *. rewrite Hsy, Hto, Hs.
      split; assumption.
  - destruct (deliver_effect contract r a P err st (world sys) Hc Hidle Hquiet Hconf)
      as (Hidle' & Hquiet' & Hconf' & Hinst & Hs & Hcases).
    unfold deliver, coherent.
    destruct (syncCallback err st (world sys)) as [w' o]. simpl in *.
    split; [exact Hidle'|]. split; [exact Hquiet'|]. split; [exact Hconf'|].
    split; [destruct Hinst as [-> | ->]; [assumption | constructor; assumption]|].
    split; [assumption|].
    split; [rewrite Hs, Hsubs; destruct o; reflexivity|].
    split.
    + destruct Hcases as [Hrep | (Hsy & Hto)]; [right; exact Hrep|].
      unfold initial_progress, reported in *. rewrite Hsy, Hto. exact Hprog.
    + rewrite Hs. intros Hzero. rewrite Hzero in Hsub. inversion Hsub.
Qed.

Lemma reachable_coherent (contract : SyncState.t -> Prop)
    (r : RootStore) (a : string) (P : number) (sys : System) :
  reachable contract (start r a P) sys -> coherent contract r a P sys.
Proof.
  induction 1 as [| sys sys' _ IH Hstep].
  - apply coherent_start.
  - exact (step_coherent contract r a P sys sys' Hstep IH).
Qed.

(** [init()] whose fetch rejects is a run under any contract. *)
Lemma reachable_init_failed (contract : SyncState.t -> Prop) :
  reachable contract (start {| root_identity := 0 |} "0xC0FFEE" (Int 10)) init_failed.
Proof.
  set (sys0 := start {| root_identity := 0 |} "0xC0FFEE" (Int 10)).
  apply reach_step with (sys := enter CallInit sys0).
  - apply reach_step with (sys := sys0); [apply reach_origin | apply step_enter].
  - exact (step_settle contract (enter CallInit sys0) [] []
             (invoke CallInit (world sys0)) (Rejected unavailable) eq_refl I).
Defined.

(** X8: only the constructor writes the page size, the owning context and
    the database handle.  In every state a fresh store can reach, by any
    calls, settlements and sync events and whatever the database reports,
    the three are what the constructor was given, so they were at every
    observed instant, and no mobx transaction is left open. *)
Theorem configuration_is_fixed
    (contract : SyncState.t -> Prop)
    (r : RootStore) (a : string) (P : number) (sys : System) :
  reachable contract (start r a P) sys ->
  resultsPerPage (this (world sys)) = P
  /\ rootStore (this (world sys)) = r
  /\ db (this (world sys)) = {| contractAddress := a |}
  /\ Forall (fun s => resultsPerPage s = P /\ rootStore s = r
                      /\ db s = {| contractAddress := a |})
       (instants (world sys))
  /\ batch (world sys) = 0%nat.
Proof.
  intros Hreach.
  destruct (reachable_coherent contract r a P sys Hreach)
    as (Hidle & _ & (HP & Hr & Hdb) & Hseen & _).
  repeat split; assumption.
Qed.

(** After [init] and a first report the page size is still 10. *)
Lemma configuration_is_fixed_witness :
  reachable any_snapshot (start {| root_identity := 0 |} "0xC0FFEE" (Int 10))
    (initialized (SyncState.mk (Int 5) (Int 20)))
  /\ resultsPerPage (this (world (initialized (SyncState.mk (Int 5) (Int 20)))))
     = Int 10.
Proof.
  assert (Hreach : reachable any_snapshot
                     (start {| root_identity := 0 |} "0xC0FFEE" (Int 10))
                     (initialized (SyncState.mk (Int 5) (Int 20)))).
  { apply reachable_initialized. exact I. }
  split; [exact Hreach|].
  exact (proj1 (configuration_is_fixed _ _ _ _ _ Hreach)).
Defined.

(** X9: the store hands its callback to [startSync] once for every [init]
    whose [getSyncState] resolved, and never otherwise: in every state a
    fresh store can reach, the number of registrations equals the number
    of tasks that ended unobserved without an error. *)
Theorem one_subscription_per_resolved_init
    (contract : SyncState.t -> Prop)
    (r : RootStore) (a : string) (P : number) (sys : System) :
  reachable contract (start r a P) sys ->
  subscriptions (world sys) = resolved_inits (heard sys).
Proof.
  intros Hreach.
  destruct (reachable_coherent contract r a P sys Hreach)
    as (_ & _ & _ & _ & _ & Hsubs & _).
  exact Hsubs.
Qed.

(** An [init] whose fetch rejected registered nothing. *)
Lemma one_subscription_per_resolved_init_witness :
  reachable any_snapshot (start {| root_identity := 0 |} "0xC0FFEE" (Int 10))
    init_failed
  /\ subscriptions (world init_failed) = resolved_inits (heard init_failed).
Proof.
  split; [apply reachable_init_failed|].
  exact (one_subscription_per_resolved_init any_snapshot _ _ _ _
           (reachable_init_failed any_snapshot)).
Defined.

(** X10: the store never computes sync progress of its own.  In every
    state a fresh store can reach, the pair (synced, total) is either the
    initial [(0, Infinity)] or, field for field, one snapshot the database
    handed out, through [getSyncState] or through a sync event. *)
Theorem progress_is_initial_or_reported
    (contract : SyncState.t -> Prop)
    (r : RootStore) (a : string) (P : number) (sys : System) :
  reachable contract (start r a P) sys ->
  (inodesSynced (this (world sys)) = Int 0
   /\ totalInodesToSync (this (world sys)) = Infinity)
  \/ (exists syncState : SyncState.t,
        contract syncState
        /\ inodesSynced (this (world sys)) = SyncState.numSynced syncState
        /\ totalInodesToSync (this (world sys)) = SyncState.total syncState).
Proof.
  intros Hreach.
  destruct (reachable_coherent contract r a P sys Hreach)
    as (_ & _ & _ & _ & _ & _ & Hprog & _).
  exact Hprog.
Qed.

(** A database that only ever reports 5 of 20. *)
Lemma progress_is_initial_or_reported_witness :
  reachable (fun s => s = SyncState.mk (Int 5) (Int 20))
    (start {| root_identity := 0 |} "0xC0FFEE" (Int 10))
    (initialized (SyncState.mk (Int 5) (Int 20)))
  /\ ((inodesSynced (this (world (initialized (SyncState.mk (Int 5) (Int 20)))))
         = Int 0
       /\ totalInodesToSync (this (world (initialized (SyncState.mk (Int 5) (Int 20)))))
          = Infinity)
      \/ (exists syncState : SyncState.t,
            syncState = SyncState.mk (Int 5) (Int 20)
            /\ inodesSynced (this (world (initialized (SyncState.mk (Int 5) (Int 20)))))
               = SyncState.numSynced syncState
            /\ totalInodesToSync
                 (this (world (initialized (SyncState.mk (Int 5) (Int 20)))))
               = SyncState.total syncState)).
Proof.
  assert (Hreach : reachable (fun s => s = SyncState.mk (Int 5) (Int 20))
                     (start {| root_identity := 0 |} "0xC0FFEE" (Int 10))
                     (initialized (SyncState.mk (Int 5) (Int 20)))).
  { apply reachable_initialized. reflexivity. }
  split; [exact Hreach|].
  exact (progress_is_initial_or_reported _ _ _ _ _ Hreach).
Defined.

(** X11: sync progress does not move before an [init] has seen its fetch
    resolve.  In every state a fresh store can reach in which no task has
    yet ended unobserved without an error, synced is 0, total is
    [Infinity], and [isDbSyncing] is false, whatever queries, clears,
    failed inits and sync events came before. *)
Theorem no_progress_before_init_resolves
    (contract : SyncState.t -> Prop)
    (r : RootStore) (a : string) (P : number) (sys : System) :
  reachable contract (start r a P) sys ->
  resolved_inits (heard sys) = 0%nat ->
  inodesSynced (this (world sys)) = Int 0
  /\ totalInodesToSync (this (world sys)) = Infinity
  /\ isDbSyncing (this (world sys)) = false
  /\ subscriptions (world sys) = 0%nat.
Proof.
  intros Hreach Hnone.
  destruct (reachable_coherent contract r a P sys Hreach)
    as (_ & _ & _ & _ & _ & Hsubs & _ & Hinit).
  rewrite Hnone in Hsubs.
  destruct (Hinit Hsubs) as (Hsy & Hto).
  unfold isDbSyncing. rewrite Hsy, Hto. repeat split. exact Hsubs.
Qed.

(** After an [init] whose fetch rejected the progress is still initial. *)
Lemma no_progress_before_init_resolves_witness :
  reachable any_snapshot (start {| root_identity := 0 |} "0xC0FFEE" (Int 10))
    init_failed
  /\ resolved_inits (heard init_failed) = 0%nat
  /\ inodesSynced (this (world init_failed)) = Int 0.
Proof.
  split; [apply reachable_init_failed|].
  split; [reflexivity|].
  exact (proj1 (no_progress_before_init_resolves any_snapshot _ _ _ _
                  (reachable_init_failed any_snapshot) eq_refl)).
Defined.

(** X12: [isDbSyncing] never turns true on its own.  In every state a
    fresh store can reach in which the getter is true, the store's sync
    progress is a snapshot the database handed out whose [numSynced]
    equals its [total]. *)
Theorem isDbSyncing_only_when_reported_equal
    (contract : SyncState.t -> Prop)
    (r : RootStore) (a : string) (P : number) (sys : System) :
  reachable contract (start r a P) sys ->
  isDbSyncing (this (world sys)) = true ->
  exists syncState : SyncState.t,
    contract syncState
    /\ SyncState.numSynced syncState = SyncState.total syncState
    /\ inodesSynced (this (world sys)) = SyncState.numSynced syncState
    /\ totalInodesToSync (this (world sys)) = SyncState.total syncState.
Proof.
  intros Hreach Htrue.
  destruct (reachable_coherent contract r a P sys Hreach)
    as (_ & _ & _ & _ & _ & _ & Hprog & _).
  unfold isDbSyncing in Htrue.
  destruct Hprog as [(Hsy & Hto) | (st & Hst & Hsy & Hto)].
  - rewrite Hsy, Hto in Htrue. discriminate Htrue.
  - exists st. split; [exact Hst|]. split; [|split; assumption].
    rewrite <- Hsy, <- Hto. now apply strict_eq_true.
Qed.

(** The database reports 20 of 20 to a fresh store's [init]. *)
Lemma isDbSyncing_only_when_reported_equal_witness :
  reachable any_snapshot (start {| root_identity := 0 |} "0xC0FFEE" (Int 10))
    (initialized (SyncState.mk (Int 20) (Int 20)))
  /\ isDbSyncing (this (world (initialized (SyncState.mk (Int 20) (Int 20))))) = true
  /\ exists syncState : SyncState.t,
       SyncState.numSynced syncState = SyncState.total syncState
       /\ inodesSynced (this (world (initialized (SyncState.mk (Int 20) (Int 20)))))
          = SyncState.numSynced syncState.
Proof.
  assert (Hreach : reachable any_snapshot
                     (start {| root_identity := 0 |} "0xC0FFEE" (Int 10))
                     (initialized (SyncState.mk (Int 20) (Int 20)))).
  { apply reachable_initialized. exact I. }
  split; [exact Hreach|]. split; [reflexivity|].
  destruct (isDbSyncing_only_when_reported_equal _ _ _ _ _ Hreach eq_refl)
    as (st & _ & Heq & Hsy & _).
  exists st. split; [exact Heq | exact Hsy].
Defined.
